(** * resqpy: feature and interpretation helpers, and the collection core around them

    A shallow embedding of [resqpy/organize/organize_old.py] together with the
    collaborators it calls (the xml element tree of [resqpy.olio.xml_et] and the
    model's reference nodes), followed by the properties of the collection core
    (property kinds, string lookups, units of measure, graph extraction and the
    consolidating copy). *)

From stdpp Require Import base option list gmap strings.

Set Warnings "-register-all,-clear-no-such-hyp".

Open Scope string_scope.
Open Scope list_scope.
Open Scope nat_scope.

(** ** The xml element tree *)

Module Xml.

(** An element as [lxml.etree] holds it: a tag, an attribute dictionary, an
    optional text and the ordered children.  The tag is kept as its namespace
    prefix and its local name: lookups by tag compare the local name only. *)
Inductive element := Element {
  prefix : string;
  tag : string;
  attrib : gmap string string;
  text : option string;
  children : list element
}.

Definition new_element (p t : string) : element := Element p t ∅ None [].

Definition with_children (e : element) (cs : list element) : element :=
  Element (prefix e) (tag e) (attrib e) (text e) cs.

(** [node.set(key, value)] *)
Definition set_attr (key value : string) (e : element) : element :=
  Element (prefix e) (tag e) (<[key := value]> (attrib e)) (text e) (children e).

(** [node.text = s] *)
Definition set_text (s : string) (e : element) : element :=
  Element (prefix e) (tag e) (attrib e) (Some s) (children e).

(** [node.append(child)] *)
Definition append (child : element) (e : element) : element :=
  with_children e (children e ++ [child]).

(** A node handed out by [SubElement] stays shared with its parent: a later
    mutation through the handle is a mutation of the parent's child at that
    position. *)
Definition at_child (i : nat) (f : element → element) (parent : element) : element :=
  with_children parent (alter f i (children parent)).

(** A tag that is a local name: it carries no namespace, neither in curly
    brackets nor before a colon. *)
Fixpoint plain_tag (t : string) : bool :=
  match t with
  | EmptyString => true
  | String c rest =>
      (* the codes of the curly brackets and of the colon *)
      negb (bool_decide (Ascii.nat_of_ascii c ∈ [123; 125; 58])) && plain_tag rest
  end.

(** Modelled from the spec: [create_subelement(parent, tag) -> node] of the
    structured-metadata-document collaborator ([rqet.SubElement]).  The new,
    empty element becomes the last child; the handle returned is its position.
    The tag is taken as a local name ([plain_tag]), which is how
    [organize_old.py] passes it. *)
Definition SubElement (parent : element) (t : string) : element * nat :=
  (append (new_element "" t) parent, length (children parent)).

(** Modelled from the spec: [find_tag(parent, tag) -> node|None] of the same
    collaborator ([rqet.find_tag]): the first child carrying the tag. *)
Definition find_tag (root : element) (tag_name : string) : option element :=
  List.find (λ child, bool_decide (tag child = tag_name)) (children root).

Fixpoint find_nested_tags (root : element) (tag_list : list string) : option element :=
  match tag_list with
  | [] => Some root
  | tag_name :: rest => find_tag root tag_name ≫= λ node, find_nested_tags node rest
  end.

(** Modelled from the spec: [find_nested_tags_text(parent, path) -> string|None]
    ([rqet.find_nested_tags_text]): the text of the node a path of tags leads to. *)
Definition find_nested_tags_text (root : element) (tag_list : list string) : option string :=
  find_nested_tags root tag_list ≫= text.

(** The constants and the metadata loader of [resqpy.olio.xml_et] and
    [resqpy.olio.xml_namespaces] that the code below reads: the curly namespace
    table [ns], the placeholder text [null_xml_text] and
    [load_metadata_from_xml]. *)
Class XmlEt := {
  ns : string → string;
  null_xml_text : string;
  load_metadata_from_xml : option element → option (gmap string string)
}.

End Xml.

Import Xml.

(** ** The model, as far as [organize_old.py] uses it *)

Module Model.

(** Identifiers travel in the form the documents hold them. *)
Abbreviation uuid := string (only parsing).

Record t := { roots : gmap string element }.

Definition root_for_uuid (model : t) (u : uuid) : option element := roots model !! u.

Definition title_for_root (model : t) (root : option element) : option string :=
  root ≫= λ r, find_nested_tags_text r ["Citation"; "Title"].

Section ref_node.
Context `{XmlEt}.

(** Modelled from the spec: the reference node of the model
    ([model.create_ref_node], absent from the sources): "a tagged element whose
    attributes declare a type, whose text is a designated null/placeholder
    marker, and which contains child elements for human-readable title and the
    target identifier".  The node is appended to [root]; the definition yields
    [root] as the call leaves it. *)
Definition create_ref_node (flavour : string) (title : option string) (u : uuid)
    (root : element) : element :=
  let ref_node := new_element (ns "resqml2") flavour in
  let ref_node := set_attr (ns "xsi" +:+ "type") (ns "eml" +:+ "DataObjectReference") ref_node in
  let ref_node := set_text null_xml_text ref_node in
  let '(ref_node, title_node) := SubElement ref_node "Title" in
  let ref_node := at_child title_node (set_text (default "(title unavailable)" title)) ref_node in
  let '(ref_node, uuid_node) := SubElement ref_node "UUID" in
  let ref_node :=
    at_child uuid_node (set_attr (ns "xsi" +:+ "type") (ns "eml" +:+ "UuidString")) ref_node in
  let ref_node := at_child uuid_node (set_text u) ref_node in
  append ref_node root.

(** The reference node [create_ref_node] hangs below [root]. *)
Definition ref_node (flavour : string) (title : option string) (u : uuid) : element :=
  Element (ns "resqml2") flavour
    {[ ns "xsi" +:+ "type" := ns "eml" +:+ "DataObjectReference" ]}
    (Some null_xml_text)
    [ Element "" "Title" ∅ (Some (default "(title unavailable)" title)) [];
      Element "" "UUID" {[ ns "xsi" +:+ "type" := ns "eml" +:+ "UuidString" ]} (Some u) [] ].

End ref_node.

End Model.

(** ** organize_old.py *)

Module OrganizeOld.

Import Model.

(** A chrono pair is a 2-tuple whose components may each be [None]; the
    variable holding it may itself be [None]. *)
Definition chrono_pair : Type := option uuid * option uuid.

Definition default_tag : string := "HasOccuredDuring".

(** The pair standing for a missing chronology. *)
Definition missing_pair : option chrono_pair := Some (None, None).

(** The part of an object that [equivalent_extra_metadata] looks at: the
    [extra_metadata] attribute when the object has one, and its xml [root]. *)
Record resqpy_object := {
  extra_metadata : option (gmap string string);
  root : option element
}.

Section organize_old.
Context `{XmlEt}.

Definition extract_has_occurred_during (parent_node : element) (tag : string) : chrono_pair :=
  match find_tag parent_node tag with
  | None => (None, None)
  | Some hod_node =>
      (find_nested_tags_text hod_node ["ChronoBottom"; "UUID"],
       find_nested_tags_text hod_node ["ChronoTop"; "UUID"])
  end.

Definition equivalent_chrono_pairs (pair_a pair_b : option chrono_pair)
    (model : option Model.t) : bool :=
  if bool_decide (pair_a = pair_b) then true
  else if bool_decide (pair_a = None) || bool_decide (pair_b = None) then false
  else if bool_decide (pair_a = Some (None, None)) || bool_decide (pair_b = Some (None, None))
  then false
  else match model with
       | Some _ => false  (* todo in the source: nothing is looked up yet *)
       | None => false    (* cautious *)
       end.

Definition equivalent_extra_metadata (a b : resqpy_object) : bool :=
  let '(a_em, a_has) :=
    match extra_metadata a with
    | Some em => (Some em, bool_decide (0 < size em))
    | None =>
        let em := load_metadata_from_xml (root a) in
        (em, match em with Some m => bool_decide (0 < size m) | None => false end)
    end in
  let '(b_em, b_has) :=
    match extra_metadata b with
    | Some em => (Some em, bool_decide (0 < size em))
    | None =>
        let em := load_metadata_from_xml (root b) in
        (em, match em with Some m => bool_decide (0 < size m) | None => false end)
    end in
  if negb (eqb a_has b_has) then false
  else if negb a_has then true
  else bool_decide (a_em = b_em).

(** The function returns nothing: its effect is the state of [parent_node]
    afterwards, which is what this definition yields. *)
Definition create_xml_has_occurred_during (model : Model.t) (parent_node : element)
    (hod_pair : option chrono_pair) (tag : string) : element :=
  match hod_pair with
  | None => parent_node
  | Some (base_chrono_uuid, top_chrono_uuid) =>
      match base_chrono_uuid, top_chrono_uuid with
      | Some base_chrono_uuid, Some top_chrono_uuid =>
          let '(parent_node, hod_node) := SubElement parent_node tag in
          let parent_node :=
            at_child hod_node
              (set_attr (ns "xsi" +:+ "type") (ns "resqml2" +:+ "TimeInterval")) parent_node in
          let parent_node := at_child hod_node (set_text null_xml_text) parent_node in
          let chrono_base_root := root_for_uuid model base_chrono_uuid in
          let chrono_top_root := root_for_uuid model top_chrono_uuid in
          let parent_node :=
            at_child hod_node
              (create_ref_node "ChronoBottom" (title_for_root model chrono_base_root)
                 base_chrono_uuid) parent_node in
          let parent_node :=
            at_child hod_node
              (create_ref_node "ChronoTop" (title_for_root model chrono_top_root)
                 top_chrono_uuid) parent_node in
          parent_node
      | _, _ => parent_node
      end
  end.

(** The finished time-interval node. *)
Definition hod_node_of (model : Model.t) (tag : string) (b t : uuid) : element :=
  Element "" tag {[ ns "xsi" +:+ "type" := ns "resqml2" +:+ "TimeInterval" ]}
    (Some null_xml_text)
    [ ref_node "ChronoBottom" (title_for_root model (root_for_uuid model b)) b;
      ref_node "ChronoTop" (title_for_root model (root_for_uuid model t)) t ].

(** The metadata an object is compared by: the attribute when it is there,
    otherwise what its document holds. *)
Definition metadata_of (a : resqpy_object) : option (gmap string string) :=
  match extra_metadata a with
  | Some em => Some em
  | None => load_metadata_from_xml (root a)
  end.

Definition absent_or_empty (a : resqpy_object) : Prop :=
  metadata_of a = None ∨ metadata_of a = Some ∅.

Definition populated (a : resqpy_object) : Prop :=
  ∃ m, metadata_of a = Some m ∧ m ≠ ∅.

(** What the source computes as [a_has]. *)
Definition has_metadata (a : resqpy_object) : bool :=
  match metadata_of a with
  | Some m => bool_decide (0 < size m)
  | None => false
  end.

End organize_old.

End OrganizeOld.

Import Model OrganizeOld.

(** A concrete collaborator: the namespace table of RESQML 2.0.1 and a
    metadata loader reading [ExtraMetadata] children as name/value pairs. *)
Definition resqml_ns (k : string) : string :=
  if bool_decide (k = "xsi") then "{http://www.w3.org/2001/XMLSchema-instance}"
  else if bool_decide (k = "eml") then "{http://www.energistics.org/energyml/data/commonv2}"
  else "{http://www.energistics.org/energyml/data/resqmlv2}".

Definition resqml_load_metadata (node : option element) : option (gmap string string) :=
  node ≫= λ n,
    Some (foldl (λ em meta,
                   match find_nested_tags_text meta ["Name"],
                         find_nested_tags_text meta ["Value"] with
                   | Some k, Some v => <[k := v]> em
                   | _, _ => em
                   end) ∅
                (filter (λ c, tag c = "ExtraMetadata") (children n))).

#[local] Instance resqml_xml_et : XmlEt :=
  {| ns := resqml_ns;
     null_xml_text := String (Ascii.ascii_of_nat 10) "";
     load_metadata_from_xml := resqml_load_metadata |}.

(** ** Property kinds *)

Module PropertyKind.

(** What a bespoke property kind is made from: [rqp.PropertyKind(model, title,
    parent_property_kind, extra_metadata)]. *)
Record t := {
  title : string;
  parent_property_kind : string;
  extra_metadata : gmap string string
}.


Section rules.
Context `{XmlEt}.



End rules.


(** [test_bespoke_property_kind] (tests/test_property.py): the six kinds it
    registers, the count of PropertyKind parts it reads after each and its
    last comparison, [pk6 == pk4]. *)
Definition em : gmap string string :=
  {[ "something" := "important"; "and_another_thing" := "42" ]}.






End PropertyKind.

(** ** String lookups *)

Module StringLookup.

(** Modelled from the spec: the String Lookup part (the class
    [rqp.StringLookup] is absent from the sources): "a mapping from small
    non-negative integers to display strings; may be stored either as a dense
    ordered sequence or as an explicit sparse mapping; the stored
    representation is an implementation choice driven by key density".  The
    sequence runs over the indices from 0 to the largest key and is empty
    where the mapping has no key, which is why [test_string_lookup] reads a
    length of 5 for the keys 1 to 4 when they are stored as a list. *)
Record t := {
  min_index : Z;
  max_index : Z;
  stored_as_list : bool;
  str_list : list (option string);
  str_dict : gmap Z string
}.

Definition keys (int_to_str_dict : gmap Z string) : list Z := (map_to_list int_to_str_dict).*1.

(** [min(d.keys())] and [max(d.keys())], of a mapping that is not empty. *)
Definition min_key (int_to_str_dict : gmap Z string) : Z :=
  foldr Z.min (default 0%Z (head (keys int_to_str_dict))) (keys int_to_str_dict).

Definition max_key (int_to_str_dict : gmap Z string) : Z :=
  foldr Z.max (default 0%Z (head (keys int_to_str_dict))) (keys int_to_str_dict).

(** The choice driven by key density: a list when no key is negative and
    the largest key is below 50 or at most ten times the number of keys. *)
Definition list_storage (int_to_str_dict : gmap Z string) : bool :=
  bool_decide (0 ≤ min_key int_to_str_dict)%Z &&
  (bool_decide (max_key int_to_str_dict < 50)%Z ||
   bool_decide (0 < (10 * Z.of_nat (size int_to_str_dict)) `div` max_key int_to_str_dict)%Z).

Definition as_list (int_to_str_dict : gmap Z string) : t :=
  {| min_index := min_key int_to_str_dict;
     max_index := max_key int_to_str_dict;
     stored_as_list := true;
     str_list := (λ i, int_to_str_dict !! i) <$> seqZ 0 (max_key int_to_str_dict + 1);
     str_dict := int_to_str_dict |}.

Definition as_dict (int_to_str_dict : gmap Z string) : t :=
  {| min_index := min_key int_to_str_dict;
     max_index := max_key int_to_str_dict;
     stored_as_list := false;
     str_list := [];
     str_dict := int_to_str_dict |}.

(** [StringLookup(model, int_to_str_dict = d)]; an empty dictionary is
    refused ([None]). *)
Definition load_from_dict (int_to_str_dict : gmap Z string) : option t :=
  if bool_decide (size int_to_str_dict = 0) then None
  else if list_storage int_to_str_dict then Some (as_list int_to_str_dict)
  else Some (as_dict int_to_str_dict).

Definition get_string (sl : t) (key : Z) : option string :=
  if bool_decide (key < min_index sl)%Z || bool_decide (max_index sl < key)%Z then None
  else if stored_as_list sl then mjoin (str_list sl !! Z.to_nat key)
  else str_dict sl !! key.

Definition get_index_for_string (sl : t) (s : string) : option Z :=
  if stored_as_list sl then
    (λ found, Z.of_nat found.1) <$> list_find (λ v, v = Some s) (str_list sl)
  else
    (λ found : nat * (Z * string), (found.2).1) <$>
      list_find (λ kv : Z * string, kv.2 = s) (map_to_list (str_dict sl)).

Definition length (sl : t) : nat :=
  if stored_as_list sl then List.length (str_list sl) else size (str_dict sl).

(** The two tables of [test_string_lookup]. *)
Definition stargazing : gmap Z string :=
  {[ 1%Z := "peaty"; 2%Z := "muddy"; 3%Z := "sandy"; 4%Z := "granite" ]}.

Definition head_in_the_clouds : gmap Z string :=
  {[ 0%Z := "nothing"; 27%Z := "something"; 173%Z := "amazing"; 1072%Z := "brilliant" ]}.


End StringLookup.

(** ** Units of measure *)

Module Uom.

(** Case folding of a unit string (its letters are ASCII). *)
Definition casefold_ascii (c : Ascii.ascii) : Ascii.ascii :=
  let n := Ascii.nat_of_ascii c in
  if bool_decide (65 ≤ n ≤ 90)%nat then Ascii.ascii_of_nat (n + 32) else c.

Fixpoint casefold (s : string) : string :=
  match s with
  | EmptyString => EmptyString
  | String c rest => String (casefold_ascii c) (casefold rest)
  end.

Definition dimensionless : string := "Euc".

(** Which unit the dictionary answers with when several of its units equal
    the input up to case is the dictionary's own business: [prefer input u v]
    tells whether, for this input, it answers [u] rather than [v]. *)
Definition choose (prefer : string → string → string → bool) (input_uom : string)
    (candidate : string) (others : list string) : string :=
  foldl (λ best uom, if prefer input_uom uom best then uom else best) candidate others.

(** Modelled from the spec: [lookup_unit(string, case_sensitive) ->
    canonical_unit] of the units dictionary collaborator
    ([rqp.validate_uom_from_string], absent from the sources): a lookup that is
    case sensitive or not, in which "unrecognized or empty input maps to a
    documented dimensionless/unknown canonical unit rather than failing".
    [valid_uoms] is the dictionary. *)
Definition validate_uom_from_string (valid_uoms : list string)
    (prefer : string → string → string → bool)
    (input_uom : option string) (case_sensitive : bool) : string :=
  match input_uom with
  | None => dimensionless
  | Some input_uom =>
      if bool_decide (input_uom = "") then dimensionless
      else if case_sensitive then
        if bool_decide (input_uom ∈ valid_uoms) then input_uom else dimensionless
      else
        match filter (λ uom, casefold uom = casefold input_uom) valid_uoms with
        | [] => dimensionless
        | uom :: others => choose prefer input_uom uom others
        end
  end.

(** The units [test_uom_from_string] goes through, as the dictionary spells
    them. *)
Definition uoms_of_test : list string := ["Euc"; "m"; "gAPI"; "gal[UK]/mi"; "m3/m3"].

End Uom.

(** ** Parts and the part store *)

Module Parts.

(** Modelled from the spec: the Part of the data model, with the references
    its document holds ("references_of(part) -> ordered sequence of (role_tag,
    target_identifier)"). *)
Record part := {
  identifier : uuid;
  type_tag : string;
  title : string;
  references : list (string * uuid);
  extra_metadata : gmap string string
}.

(** The store keeps its parts in insertion order. *)
Definition identifiers (store : list part) : list uuid := identifier <$> store.

Definition targets (p : part) : list uuid := snd <$> references p.

Definition refers_to (p : part) (u : uuid) : bool := bool_decide (u ∈ targets p).

End Parts.

(** ** Graph extraction *)

Module Graph.

Import Parts.

(** Nodes are keyed by identifier and carry the title and type of the part,
    when the store holds a part for the identifier; an edge is the unordered
    pair of its two ends. *)
Definition graph : Type := gmap string (option (string * string)) * gset (gset string).

Definition nodes (g : graph) : gmap string (option (string * string)) := g.1.
Definition edges (g : graph) : gset (gset string) := g.2.

Definition edge (a b : uuid) : gset string := {[ a; b ]}.

Definition part_for_uuid (store : list part) (u : uuid) : option part :=
  List.find (λ p, bool_decide (identifier p = u)) store.

(** Modelled from the spec: [as_graph(seed_identifiers=None) -> (nodes,
    edges)] of the Graph Extractor ([model.as_graph], absent from the sources),
    "Nodes = {identifier: {title, type_tag}}", "Edges = set of unordered
    identifier pairs", with the identifiers given taken as the nodes to show
    and no reference followed from them, which is what [test_model_as_graph]
    asserts for [uuids_subset = [datum.uuid]].  Every identifier given becomes
    a node (every part of the store, when none is given); an edge joins two
    shown parts of which one refers to the other. *)
Definition as_graph (store : list part) (uuids_subset : option (list uuid)) : graph :=
  let uuids_subset := default (identifiers store) uuids_subset in
  let shown := omap (part_for_uuid store) uuids_subset in
  (list_to_map
     ((λ u, (u, (λ p, (title p, type_tag p)) <$> part_for_uuid store u)) <$> uuids_subset),
   list_to_set (p ← shown; q ← shown;
                if refers_to p (identifier q) then [edge (identifier p) (identifier q)] else [])).




(** The store of [test_model_as_graph] (the fixture [example_model_with_well]):
    a crs, a datum on it, a wellbore feature and its interpretation, and a
    trajectory referring to datum, crs and interpretation. *)
Definition crs : part := Build_part "uuid-crs" "LocalDepth3dCrs" "crs" [] ∅.
Definition datum : part :=
  Build_part "uuid-datum" "MdDatum" "datum" [("LocalCrs", "uuid-crs")] ∅.
Definition well_feature : part := Build_part "uuid-feature" "WellboreFeature" "well A" [] ∅.
Definition well_interp : part :=
  Build_part "uuid-interp" "WellboreInterpretation" "well A"
    [("InterpretedFeature", "uuid-feature")] ∅.
Definition traj : part :=
  Build_part "uuid-traj" "WellboreTrajectoryRepresentation" "well A"
    [("MdDatum", "uuid-datum"); ("LocalCrs", "uuid-crs");
     ("RepresentedInterpretation", "uuid-interp")] ∅.

Definition example_model_with_well : list part := [crs; datum; well_feature; well_interp; traj].

(** The assertions of [test_model_as_graph], on an extractor. *)
Definition test_model_as_graph (extract : list part → option (list uuid) → graph) : bool :=
  let '(nodes, edges) := extract example_model_with_well None in
  forallb (λ obj, bool_decide (fmap fst <$> nodes !! identifier obj = Some (Some (title obj))))
          [well_interp; datum; traj; crs]
  && bool_decide (edge (identifier traj) (identifier datum) ∈ edges)
  && bool_decide (edge (identifier traj) (identifier crs) ∈ edges)
  && bool_decide (edge (identifier traj) (identifier well_interp) ∈ edges)
  && bool_decide (edge (identifier datum) (identifier traj) ∈ edges)
  && let '(nodes, edges) := extract example_model_with_well (Some [identifier datum]) in
     bool_decide (size nodes = 1) && bool_decide (size edges = 0).

End Graph.

(** ** The consolidating copy *)

Module Consolidation.

Import Parts.

Inductive error := DuplicatePart.

(** Modelled from the spec: [add(part)] of the Part Store ("requires
    part.identifier unique; fails with DuplicatePart otherwise"). *)
Definition add (store : list part) (p : part) : error + list part :=
  if bool_decide (identifier p ∈ identifiers store) then inl DuplicatePart
  else inr (store ++ [p]).

(** References to [from] turned into references to [to]. *)
Definition redirect (from to : uuid) (p : part) : part :=
  Build_part (identifier p) (type_tag p) (title p)
    ((λ r : string * uuid, (r.1, if bool_decide (r.2 = from) then to else r.2)) <$> references p)
    (extra_metadata p).

(** Step 4 on one part: "any reference to a donor identifier present in the
    mapping table is replaced by the corresponding surviving identifier". *)
Definition rewrite_references (mapping : gmap string string) (p : part) : part :=
  Build_part (identifier p) (type_tag p) (title p)
    ((λ r : string * uuid, (r.1, default r.2 (mapping !! r.2))) <$> references p)
    (extra_metadata p).

Section copy.

(** Modelled from the spec: the registry of equivalence rules, "a registry
    mapping type_tag -> comparator function, with a documented fallback
    (never-equivalent) for unregistered types". *)
Variable rules : string → option (part → part → bool).

Definition equivalent (a b : part) : bool :=
  bool_decide (type_tag a = type_tag b) &&
  match rules (type_tag a) with
  | Some rule => rule a b
  | None => false
  end.

(** "search the target store for an existing equivalent part of the same
    type" *)
Definition find_equivalent (target : list part) (candidate : part) : option part :=
  List.find (equivalent candidate) target.

(** Modelled from the spec: steps 2 and 3 of [copy_parts], the search-and-copy
    pass over the candidates.  The target is the store as it stands when a
    candidate is reached; the mapping table records, for each candidate, the
    identifier that survives. *)
Fixpoint copy_pass (consolidate : bool) (candidates target : list part)
    (mapping : gmap string string) : error + (list part * gmap string string) :=
  match candidates with
  | [] => inr (target, mapping)
  | candidate :: rest =>
      match (if consolidate then find_equivalent target candidate else None) with
      | Some survivor =>
          copy_pass consolidate rest target
            (<[identifier candidate := identifier survivor]> mapping)
      | None =>
          match add target candidate with
          | inl e => inl e
          | inr target =>
              copy_pass consolidate rest target
                (<[identifier candidate := identifier candidate]> mapping)
          end
      end
  end.

(** Modelled from the spec: [copy_parts(source_store, filter=None,
    consolidate)] of the Consolidator ([model.copy_all_parts_from_other_model],
    absent from the sources): the candidates, the search-and-copy pass, and
    then, the mapping table being complete, the rewrite of the references of
    every copied and previously existing part. *)
Definition copy_parts (source : list part) (filter : option (part → bool))
    (consolidate : bool) (target : list part) : error + list part :=
  let candidates :=
    match filter with
    | None => source
    | Some selected => List.filter selected source
    end in
  match copy_pass consolidate candidates target ∅ with
  | inl e => inl e
  | inr (target, mapping) =>
      inr (if consolidate then rewrite_references mapping <$> target else target)
  end.

(** The identity entries the pass records for the parts it copies. *)
Definition copied (mapping : gmap string string) (candidates : list part) : gmap string string :=
  foldl (λ m c, <[identifier c := identifier c]> m) mapping candidates.

Definition none_equivalent (candidates others : list part) : Prop :=
  Forall (λ c, Forall (λ t, identifier t ≠ identifier c → equivalent c t = false) others)
         candidates.

End copy.

(** A registry with one rule, for coordinate reference systems: same title
    and same extra metadata. *)
Definition crs_rules (t : string) : option (part → part → bool) :=
  if bool_decide (t = "LocalDepth3dCrs")
  then Some (λ a b, bool_decide (title a = title b)
                    && bool_decide (extra_metadata a = extra_metadata b))
  else None.

(** A target holding one crs; a donor holding a crs equivalent to it and two
    further crs equivalent to each other, with a grid on each. *)
Definition new_crs : part := Build_part "uuid-0" "LocalDepth3dCrs" "crs" [] ∅.
Definition donor_crs : part := Build_part "uuid-1" "LocalDepth3dCrs" "crs" [] ∅.
Definition donor_grid : part :=
  Build_part "uuid-2" "IjkGridRepresentation" "grid" [("LocalCrs", "uuid-1")] ∅.
Definition local_crs_a : part := Build_part "uuid-3" "LocalDepth3dCrs" "local" [] ∅.
Definition local_crs_b : part := Build_part "uuid-4" "LocalDepth3dCrs" "local" [] ∅.

End Consolidation.

(** ** Attribute aliases *)

Module Alias.

Section alias.
Context {V : Type}.

(** What reading or writing an attribute comes to: a value, or one of the
    two exceptions. *)
Inductive outcome (A : Type) :=
  | Value (a : A)
  | AttributeError
  | RecursionError.

(** An object, as far as [getattr] and [setattr] see it: the properties its
    class binds with [alias_for_attribute] (the name of the property and the
    attribute it stands for) and the dictionary of the instance. *)
Record object := {
  properties : gmap string string;
  dict : gmap string V
}.

(** The attribute of the instance a name leads to.  A name the class binds
    to an alias leads on to the aliased name, which may be an alias again;
    aliases that lead back to themselves exhaust the depth. *)
Fixpoint resolve (depth : nat) (class : gmap string string) (name : string) : option string :=
  match class !! name with
  | None => Some name
  | Some attribute_name =>
      match depth with
      | 0 => None
      | S depth => resolve depth class attribute_name
      end
  end.

(** [getattr(self, name)]: a property of the class comes before the
    dictionary of the instance. *)
Definition getattr (self : object) (name : string) : outcome V :=
  match resolve (size (properties self)) (properties self) name with
  | None => RecursionError V
  | Some attribute =>
      match dict self !! attribute with
      | Some value => Value V value
      | None => AttributeError V
      end
  end.

(** [setattr(self, name, value)], giving the object afterwards. *)
Definition setattr (self : object) (name : string) (value : V) : outcome object :=
  match resolve (size (properties self)) (properties self) name with
  | None => RecursionError object
  | Some attribute =>
      Value object {| properties := properties self; dict := <[attribute := value]> (dict self) |}
  end.

(** What [property(fget, fset, doc = ...)] is built from. *)
Record property := {
  fget : object → outcome V;
  fset : object → V → outcome object;
  doc : string
}.

Definition alias_for_attribute (attribute_name : string) : property :=
  {| fget := λ self, getattr self attribute_name;
     fset := λ self value, setattr self attribute_name value;
     doc := "Alias for " +:+ attribute_name |}.

End alias.

Arguments outcome : clear implicits.
Arguments object : clear implicits.
Arguments property : clear implicits.
Arguments Value {_}.
Arguments AttributeError {_}.
Arguments RecursionError {_}.

End Alias.

(** * Properties *)

(** ** Chrono pairs *)

Section chrono_pairs.
Context `{XmlEt}.

Lemma equivalent_chrono_pairs_spec pair_a pair_b model :
  equivalent_chrono_pairs pair_a pair_b model = bool_decide (pair_a = pair_b).
Proof.
  unfold equivalent_chrono_pairs.
  case_bool_decide as Hab; [done|].
  repeat (case_bool_decide; simpl; try done); by destruct model.
Qed.

End chrono_pairs.

(** C2, as stated, fails: with the missing-pair sentinel on both sides the
    two pairs are identical and [equivalent_chrono_pairs] returns true. *)
Lemma equivalent_chrono_pairs_both_missing :
  equivalent_chrono_pairs missing_pair missing_pair None ≠ false.
Proof. by vm_compute. Qed.

(** C2, amended: when at least one side is the missing-pair sentinel,
    [equivalent_chrono_pairs] returns true exactly when both sides are the
    sentinel; with the sentinel on one side only it returns false. *)
Theorem equivalent_chrono_pairs_missing pair_a pair_b model :
  pair_a = missing_pair ∨ pair_b = missing_pair →
  equivalent_chrono_pairs pair_a pair_b model = true ↔
  pair_a = missing_pair ∧ pair_b = missing_pair.
Proof.
  intros Hmissing. rewrite equivalent_chrono_pairs_spec, bool_decide_eq_true.
  split.
  - intros <-. by destruct Hmissing.
  - by intros [-> ->].
Qed.

Lemma equivalent_chrono_pairs_missing_witness :
  equivalent_chrono_pairs (Some (Some "b1", Some "t1")) missing_pair None = true ↔
  Some (Some "b1", Some "t1") = missing_pair ∧ missing_pair = missing_pair.
Proof.
  apply (equivalent_chrono_pairs_missing (Some (Some "b1", Some "t1")) missing_pair None).
  right. reflexivity.
Defined.

(** C6: [equivalent_chrono_pairs] and [equivalent_extra_metadata] are
    reflexive and symmetric. *)
Theorem equivalence_rules_reflexive_symmetric `{XmlEt} :
  (∀ pair model, equivalent_chrono_pairs pair pair model = true) ∧
  (∀ pair_a pair_b model,
     equivalent_chrono_pairs pair_a pair_b model = equivalent_chrono_pairs pair_b pair_a model) ∧
  (∀ a, equivalent_extra_metadata a a = true) ∧
  (∀ a b, equivalent_extra_metadata a b = equivalent_extra_metadata b a).
Proof.
  repeat split.
  - intros. by rewrite equivalent_chrono_pairs_spec, bool_decide_eq_true.
  - intros. rewrite !equivalent_chrono_pairs_spec. apply bool_decide_ext. naive_solver.
  - intros a. unfold equivalent_extra_metadata.
    destruct (extra_metadata a) as [em|]; [|destruct (load_metadata_from_xml (root a))];
      simpl; repeat case_bool_decide; simpl; done.
  - intros a b. unfold equivalent_extra_metadata.
    destruct (extra_metadata a) as [ema|], (extra_metadata b) as [emb|];
      [|destruct (load_metadata_from_xml (root b))
       |destruct (load_metadata_from_xml (root a))
       |destruct (load_metadata_from_xml (root a)), (load_metadata_from_xml (root b))];
      simpl; repeat case_bool_decide; simpl; try done; congruence.
Qed.

(** ** Extra metadata *)

Section extra_metadata.
Context `{XmlEt}.

Lemma has_metadata_false a : has_metadata a = false ↔ absent_or_empty a.
Proof.
  unfold has_metadata, absent_or_empty.
  destruct (metadata_of a) as [m|]; [|naive_solver].
  rewrite bool_decide_eq_false. split.
  - intros Hsize. right. f_equal. apply map_size_empty_iff. lia.
  - intros [?| [= ->]]; [done|]. rewrite map_size_empty. lia.
Qed.

Lemma has_metadata_true a : has_metadata a = true ↔ populated a.
Proof.
  unfold has_metadata, populated.
  destruct (metadata_of a) as [m|]; [|naive_solver].
  rewrite bool_decide_eq_true. split.
  - intros Hsize. exists m. split; [done|]. intros ->. rewrite map_size_empty in Hsize. lia.
  - intros (m' & [= <-] & Hne). apply map_size_non_empty_iff in Hne. lia.
Qed.

Lemma equivalent_extra_metadata_unfold a b :
  equivalent_extra_metadata a b =
    if negb (eqb (has_metadata a) (has_metadata b)) then false
    else if negb (has_metadata a) then true
    else bool_decide (metadata_of a = metadata_of b).
Proof.
  unfold equivalent_extra_metadata, has_metadata, metadata_of.
  destruct (extra_metadata a), (extra_metadata b); reflexivity.
Qed.

Lemma equivalent_extra_metadata_true a b :
  equivalent_extra_metadata a b = true ↔
    (absent_or_empty a ∧ absent_or_empty b) ∨
    (populated a ∧ populated b ∧ metadata_of a = metadata_of b).
Proof.
  rewrite <- !has_metadata_false, <- !has_metadata_true, equivalent_extra_metadata_unfold.
  destruct (has_metadata a), (has_metadata b); simpl;
    rewrite ?bool_decide_eq_true; naive_solver.
Qed.

End extra_metadata.

(** C5: [equivalent_extra_metadata a b] is true exactly when both sides have
    absent or empty metadata, or both have non-empty metadata that are the same
    mapping; an absent-or-empty side is never equivalent to a populated one. *)
Theorem equivalent_extra_metadata_iff `{XmlEt} (a b : resqpy_object) :
  (equivalent_extra_metadata a b = true ↔
     (absent_or_empty a ∧ absent_or_empty b) ∨
     (populated a ∧ populated b ∧ metadata_of a = metadata_of b)) ∧
  (absent_or_empty a ∧ populated b → equivalent_extra_metadata a b = false) ∧
  (populated a ∧ absent_or_empty b → equivalent_extra_metadata a b = false).
Proof.
  split; [apply equivalent_extra_metadata_true|].
  rewrite <- !has_metadata_false, <- !has_metadata_true, equivalent_extra_metadata_unfold.
  split; intros [-> ->]; done.
Qed.

(** ** The "has occurred during" node *)

Section has_occurred_during.
Context `{XmlEt}.

Lemma at_child_append i f g parent child :
  i = length (children parent) →
  g child = f child →
  at_child i f (append child parent) = append (g child) parent.
Proof.
  intros -> Hg. unfold at_child, append, with_children. simpl. f_equal.
  rewrite <- (Nat.add_0_r (length (children parent))), alter_app_r. simpl. by rewrite Hg.
Qed.

Lemma create_ref_node_append flavour title u root :
  create_ref_node flavour title u root = append (ref_node flavour title u) root.
Proof.
  unfold create_ref_node, ref_node, SubElement.
  unfold at_child, append, with_children, set_attr, set_text, new_element. simpl.
  by rewrite !insert_empty.
Qed.

Lemma create_xml_has_occurred_during_some model parent_node tag b t :
  create_xml_has_occurred_during model parent_node (Some (Some b, Some t)) tag
  = append (hod_node_of model tag b t) parent_node.
Proof.
  unfold create_xml_has_occurred_during, SubElement.
  rewrite (at_child_append _ _ (set_attr (ns "xsi" +:+ "type") (ns "resqml2" +:+ "TimeInterval")))
    by done.
  rewrite (at_child_append _ _ (set_text null_xml_text)) by done.
  rewrite (at_child_append _ _
    (create_ref_node "ChronoBottom" (title_for_root model (root_for_uuid model b)) b)) by done.
  rewrite (at_child_append _ _
    (create_ref_node "ChronoTop" (title_for_root model (root_for_uuid model t)) t)) by done.
  rewrite !create_ref_node_append. unfold hod_node_of.
  unfold append, with_children, set_attr, set_text, new_element. simpl.
  by rewrite insert_empty.
Qed.

Lemma find_tag_append_None parent child tag_name :
  find_tag parent tag_name = None →
  tag child = tag_name →
  find_tag (append child parent) tag_name = Some child.
Proof.
  unfold find_tag, append. simpl. intros Hnone Htag.
  induction (children parent) as [|c cs IH]; simpl in *.
  - by rewrite bool_decide_eq_true_2.
  - destruct (bool_decide (tag c = tag_name)); [done|]. by apply IH.
Qed.

Lemma find_tag_append_Some parent child tag_name node :
  find_tag parent tag_name = Some node →
  find_tag (append child parent) tag_name = Some node.
Proof.
  unfold find_tag, append. simpl.
  induction (children parent) as [|c cs IH]; simpl; [done|].
  destruct (bool_decide (tag c = tag_name)); [done|]. apply IH.
Qed.

Lemma extract_hod_node model tag b t :
  find_nested_tags_text (hod_node_of model tag b t) ["ChronoBottom"; "UUID"] = Some b ∧
  find_nested_tags_text (hod_node_of model tag b t) ["ChronoTop"; "UUID"] = Some t.
Proof. by split. Qed.

End has_occurred_during.

(** C10: [create_xml_has_occurred_during] leaves the parent node as it is when
    the pair is [None] or either of its identifiers is [None]; with both
    identifiers given, the parent keeps its tag, attributes, text and children
    and gains exactly one child, appended last. *)
Theorem create_xml_has_occurred_during_frame `{XmlEt} model parent_node tag :
  create_xml_has_occurred_during model parent_node None tag = parent_node ∧
  (∀ top, create_xml_has_occurred_during model parent_node (Some (None, top)) tag = parent_node) ∧
  (∀ base, create_xml_has_occurred_during model parent_node (Some (base, None)) tag = parent_node) ∧
  (∀ b t, ∃ hod_node,
     create_xml_has_occurred_during model parent_node (Some (Some b, Some t)) tag
     = Element (prefix parent_node) (Xml.tag parent_node) (attrib parent_node) (text parent_node)
         (children parent_node ++ [hod_node])).
Proof.
  repeat split.
  - intros [?|]; done.
  - intros b t. exists (hod_node_of model tag b t).
    by rewrite create_xml_has_occurred_during_some.
Qed.

(** C7, as stated, fails: on a parent that already holds a node with the tag,
    extraction after creation reads that earlier node, not the pair written. *)
Lemma extract_after_create_earlier_node :
  extract_has_occurred_during
    (create_xml_has_occurred_during (Build_t ∅)
       (Element "" "GeologicUnitFeature" ∅ None [new_element "" default_tag])
       (Some (Some "b1", Some "t1")) default_tag)
    default_tag
  ≠ (Some "b1", Some "t1").
Proof. by vm_compute. Qed.

(** C7, amended: on a parent node that has no child with the tag yet,
    creating the node for a pair of identifiers and then extracting with the
    same tag returns exactly that pair. *)
Theorem extract_after_create `{XmlEt} model parent_node tag (b t : uuid) :
  find_tag parent_node tag = None →
  extract_has_occurred_during
    (create_xml_has_occurred_during model parent_node (Some (Some b, Some t)) tag) tag
  = (Some b, Some t).
Proof.
  intros Hfresh. rewrite create_xml_has_occurred_during_some.
  unfold extract_has_occurred_during.
  rewrite (find_tag_append_None _ (hod_node_of model tag b t)) by done.
  by destruct (extract_hod_node model tag b t) as [-> ->].
Qed.

Lemma extract_after_create_witness :
  extract_has_occurred_during
    (create_xml_has_occurred_during (Build_t ∅) (new_element "" "GeologicUnitFeature")
       (Some (Some "b1", Some "t1")) default_tag) default_tag
  = (Some "b1", Some "t1").
Proof.
  apply (extract_after_create (Build_t ∅) (new_element "" "GeologicUnitFeature") default_tag).
  reflexivity.
Defined.

(** ** Property kinds *)

Section property_kind.
Context `{XmlEt}.



End property_kind.






(** ** String lookups *)

Example test_string_lookup :
  ∃ sl sl2,
    StringLookup.load_from_dict StringLookup.stargazing = Some sl ∧
    StringLookup.load_from_dict StringLookup.head_in_the_clouds = Some sl2 ∧
    StringLookup.length sl = (if StringLookup.stored_as_list sl then 5 else 4) ∧
    StringLookup.get_string sl 3 = Some "sandy" ∧
    StringLookup.get_index_for_string sl "muddy" = Some 2%Z ∧
    StringLookup.stored_as_list sl2 = false ∧
    StringLookup.length sl2 = 4 ∧
    StringLookup.get_string sl2 1072 = Some "brilliant" ∧
    StringLookup.get_string sl2 555 = None ∧
    StringLookup.get_index_for_string sl2 "amazing" = Some 173%Z.
Proof. do 2 eexists. by vm_compute. Qed.

Section string_lookup.
Implicit Types d : gmap Z string.

Local Open Scope Z_scope.

















End string_lookup.




(** ** Units of measure *)

Example test_uom_from_string (prefer : string → string → string → bool) :
  let validate := Uom.validate_uom_from_string Uom.uoms_of_test prefer in
  validate (Some "gapi") false = "gAPI" ∧
  validate (Some "gapi") true = "Euc" ∧
  validate (Some "m") false = "m" ∧
  validate (Some "M") false = "m" ∧
  validate (Some "foobar") true = "Euc" ∧
  validate (Some "") true = "Euc" ∧
  validate (Some "gal[UK]/mi") false = "gal[UK]/mi" ∧
  validate (Some "GAL[UK]/MI") false = "gal[UK]/mi" ∧
  validate None false = "Euc".
Proof. by vm_compute. Qed.




(** ** Graph extraction *)

Example as_graph_passes_test : Graph.test_model_as_graph Graph.as_graph = true.
Proof. by vm_compute. Qed.

Section graph.
Import Parts Graph.





End graph.




(** ** The consolidating copy *)

Example copy_all_parts_consolidated :
  Consolidation.copy_parts Consolidation.crs_rules
    [Consolidation.donor_crs; Consolidation.donor_grid] None true [Consolidation.new_crs]
  = inr [Consolidation.new_crs;
         Parts.Build_part "uuid-2" "IjkGridRepresentation" "grid" [("LocalCrs", "uuid-0")] ∅].
Proof. by vm_compute. Qed.

(** Without consolidation the copy is an append and equivalent parts both
    survive; a part whose identifier the target already holds is refused. *)
Example copy_all_parts_plain :
  Consolidation.copy_parts Consolidation.crs_rules
    [Consolidation.donor_crs; Consolidation.donor_grid] None false [Consolidation.new_crs]
  = inr [Consolidation.new_crs; Consolidation.donor_crs; Consolidation.donor_grid] ∧
  Consolidation.copy_parts Consolidation.crs_rules
    [Consolidation.donor_grid] None true [Consolidation.new_crs; Consolidation.donor_grid]
  = inl Consolidation.DuplicatePart.
Proof. by vm_compute. Qed.

(** C1, as stated, fails: the donor below holds exactly one part equivalent to
    a part of the target, and two further parts equivalent to each other; the
    second of these is not copied either, and the target ends with two parts,
    not with 1 + 3 - 1. *)
Lemma copy_parts_merges_donor_parts :
  let target := [Consolidation.new_crs] in
  let donor := [Consolidation.donor_crs; Consolidation.local_crs_a; Consolidation.local_crs_b] in
  length (filter (λ d, is_Some (Consolidation.find_equivalent Consolidation.crs_rules target d))
            donor) = 1 ∧
  sum_map id length (Consolidation.copy_parts Consolidation.crs_rules donor None true target)
    ≠ inr (length target + length donor - 1).
Proof. split; by vm_compute. Qed.

Section copy_parts.
Import Parts Consolidation.
Variable rules : string → option (part → part → bool).
Implicit Types target candidates : list part.

Lemma find_equivalent_None target c :
  identifier c ∉ identifiers target →
  Forall (λ t, identifier t ≠ identifier c → equivalent rules c t = false) target →
  find_equivalent rules target c = None.
Proof.
  unfold find_equivalent, identifiers. intros Hfresh Hall.
  induction Hall as [|t target Ht _ IH]; simpl; [done|].
  rewrite Ht; [apply IH|]; set_solver.
Qed.

Lemma find_equivalent_app target others c s :
  find_equivalent rules target c = Some s →
  find_equivalent rules (target ++ others) c = Some s.
Proof.
  unfold find_equivalent. induction target as [|t target IH]; simpl; [done|].
  destruct (equivalent rules c t); [done|apply IH].
Qed.

Lemma copy_pass_none_equivalent candidates target mapping :
  NoDup (identifiers (target ++ candidates)) →
  none_equivalent rules candidates (target ++ candidates) →
  copy_pass rules true candidates target mapping
  = inr (target ++ candidates, copied mapping candidates).
Proof.
  revert target mapping.
  induction candidates as [|c rest IH]; intros target mapping Hnodup Hnone; simpl.
  { by rewrite app_nil_r. }
  unfold identifiers in Hnodup. rewrite fmap_app, fmap_cons in Hnodup.
  apply NoDup_app in Hnodup as (Htarget & Hdisjoint & [Hc Hrest]%NoDup_cons).
  apply Forall_cons in Hnone as [Hnone_c Hnone_rest].
  apply Forall_app in Hnone_c as [Hnone_t _].
  rewrite find_equivalent_None; [|unfold identifiers; set_solver|done].
  unfold add. rewrite bool_decide_eq_false_2 by (unfold identifiers; set_solver).
  rewrite IH, <- app_assoc; [done| |].
  - unfold identifiers. rewrite <- app_assoc. simpl. rewrite fmap_app, fmap_cons.
    apply NoDup_app. split_and!; [done|set_solver|by apply NoDup_cons].
  - rewrite <- app_assoc. simpl. done.
Qed.

Lemma copied_lookup candidates mapping u :
  copied mapping candidates !! u
  = if bool_decide (u ∈ identifiers candidates) then Some u else mapping !! u.
Proof.
  unfold copied, identifiers. revert mapping.
  induction candidates as [|c rest IH]; intros mapping; csimpl; [done|].
  rewrite IH. repeat case_bool_decide; try set_solver.
  - assert (u = identifier c) as -> by set_solver. by rewrite lookup_insert_eq.
  - rewrite lookup_insert_ne; [done|set_solver].
Qed.

Lemma none_equivalent_weaken candidates others others' :
  others' ⊆ others →
  none_equivalent rules candidates others → none_equivalent rules candidates others'.
Proof.
  unfold none_equivalent. intros Hsub Hnone.
  eapply Forall_impl; [done|]. intros c Hc. simpl in *.
  rewrite Forall_forall in *. intros t Ht. apply Hc. by apply Hsub.
Qed.

Lemma copy_parts_one_equivalent target l1 d l2 s :
  NoDup (identifiers (target ++ l1 ++ d :: l2)) →
  find_equivalent rules target d = Some s →
  none_equivalent rules (l1 ++ l2) (target ++ l1 ++ l2) →
  copy_parts rules (l1 ++ d :: l2) None true target
  = inr (redirect (identifier d) (identifier s) <$> (target ++ l1 ++ l2)).
Proof.
  intros Hnodup Hfind Hnone. unfold copy_parts.
  assert (∀ mapping,
    copy_pass rules true (l1 ++ d :: l2) target mapping
    = inr (target ++ l1 ++ l2,
           copied (<[identifier d := identifier s]> (copied mapping l1)) l2)) as ->.
  { intros mapping.
    apply Forall_app in Hnone as [Hnone1 Hnone2].
    assert (∀ cands tgt m k,
      copy_pass rules true cands tgt m = inr k →
      ∀ more, copy_pass rules true (cands ++ more) tgt m
              = copy_pass rules true more k.1 k.2) as Hseq.
    { induction cands as [|c cands IH]; intros tgt m k Hk more; simpl in *.
      - by simplify_eq.
      - destruct (find_equivalent rules tgt c); [by apply IH|].
        destruct (add tgt c); [done|by apply IH]. }
    erewrite Hseq; last first.
    { apply copy_pass_none_equivalent.
      - unfold identifiers in *. rewrite !fmap_app in Hnodup. rewrite fmap_app.
        rewrite app_assoc in Hnodup. by apply NoDup_app in Hnodup as [? _].
      - eapply none_equivalent_weaken; [|done]. set_solver. }
    simpl. rewrite (find_equivalent_app _ _ _ s) by done.
    rewrite copy_pass_none_equivalent, <- app_assoc; [done| |].
    - unfold identifiers in *. rewrite !fmap_app, fmap_cons in Hnodup.
      rewrite <- app_assoc, !fmap_app.
      apply NoDup_app in Hnodup as (? & ? & (? & ? & [? ?]%NoDup_cons)%NoDup_app).
      apply NoDup_app. split_and!; [done| |apply NoDup_app; set_solver].
      set_solver.
    - by rewrite <- app_assoc. }
  f_equal. apply list_fmap_ext. intros _ p _.
  unfold rewrite_references, redirect. f_equal.
  apply list_fmap_ext. intros _ [role u] _. simpl. f_equal.
  rewrite copied_lookup.
  unfold identifiers in Hnodup. rewrite !fmap_app, fmap_cons in Hnodup.
  apply NoDup_app in Hnodup as (_ & _ & (_ & Hl1 & [Hd _]%NoDup_cons)%NoDup_app).
  repeat case_bool_decide; subst; simpl; try done.
  - by rewrite lookup_insert_eq.
  - rewrite lookup_insert_ne, copied_lookup by done.
    case_bool_decide; [done|]. by rewrite lookup_empty.
Qed.

End copy_parts.

(** C1, amended: for a target and a donor whose parts all carry different
    identifiers, where one donor part has an equivalent in the target and no
    other donor part is equivalent to any other part of the target or of the
    donor, [copy_parts] with consolidation yields a target of the original
    count plus the donor count minus one: the target's parts and the donor's
    other parts, in which every reference to the donor's duplicate has become
    a reference to the surviving part of the target. *)
Theorem copy_parts_consolidates_one
    (rules : string → option (Parts.part → Parts.part → bool))
    (target l1 : list Parts.part) (d : Parts.part) (l2 : list Parts.part) (s : Parts.part) :
  NoDup (Parts.identifiers (target ++ l1 ++ d :: l2)) →
  Consolidation.find_equivalent rules target d = Some s →
  Consolidation.none_equivalent rules (l1 ++ l2) (target ++ l1 ++ l2) →
  ∃ target',
    Consolidation.copy_parts rules (l1 ++ d :: l2) None true target = inr target' ∧
    length target' = length target + length (l1 ++ d :: l2) - 1 ∧
    target' = Consolidation.redirect (Parts.identifier d) (Parts.identifier s)
                <$> (target ++ l1 ++ l2) ∧
    Forall (λ p, Parts.identifier d ∉ Parts.targets p) target'.
Proof.
  intros Hnodup Hfind Hnone. eexists. split_and!.
  - by apply copy_parts_one_equivalent.
  - rewrite length_fmap, !length_app. simpl. lia.
  - done.
  - assert (Parts.identifier s ≠ Parts.identifier d) as Hsd.
    { apply find_some in Hfind as [Hs%list_elem_of_In _].
      unfold Parts.identifiers in Hnodup. rewrite !fmap_app, fmap_cons in Hnodup.
      apply NoDup_app in Hnodup as (_ & Hdisjoint & _).
      intros Heq. apply (Hdisjoint (Parts.identifier s)); [set_solver|].
      rewrite Heq. set_solver. }
    apply Forall_fmap, Forall_forall. intros p _.
    unfold Parts.targets, Consolidation.redirect. simpl.
    rewrite <- list_fmap_compose. intros ([role u] & Hu & _)%list_elem_of_fmap.
    simpl in Hu. case_bool_decide; congruence.
Qed.

Lemma copy_parts_consolidates_one_witness :
  ∃ target',
    Consolidation.copy_parts Consolidation.crs_rules
      ([] ++ Consolidation.donor_crs :: [Consolidation.donor_grid]) None true
      [Consolidation.new_crs] = inr target' ∧
    length target' = length [Consolidation.new_crs]
                     + length ([] ++ Consolidation.donor_crs :: [Consolidation.donor_grid]) - 1 ∧
    target' = Consolidation.redirect (Parts.identifier Consolidation.donor_crs)
                (Parts.identifier Consolidation.new_crs)
                <$> ([Consolidation.new_crs] ++ [] ++ [Consolidation.donor_grid]) ∧
    Forall (λ p, Parts.identifier Consolidation.donor_crs ∉ Parts.targets p) target'.
Proof.
  apply (copy_parts_consolidates_one Consolidation.crs_rules
           [Consolidation.new_crs] [] Consolidation.donor_crs [Consolidation.donor_grid]
           Consolidation.new_crs).
  - apply (bool_decide_unpack _). vm_compute. exact I.
  - reflexivity.
  - apply (bool_decide_unpack _). vm_compute. exact I.
Defined.

(** * Further properties of [organize_old.py] *)

(** ** Chrono pairs and extra metadata as relations *)

(** X1: [equivalent_chrono_pairs] holds exactly of identical pairs, whatever
    model is passed (none, or any model), and so it is transitive too. *)
Theorem equivalent_chrono_pairs_identity :
  (∀ pair_a pair_b model,
     equivalent_chrono_pairs pair_a pair_b model = true ↔ pair_a = pair_b) ∧
  (∀ pair_a pair_b model model',
     equivalent_chrono_pairs pair_a pair_b model = equivalent_chrono_pairs pair_a pair_b model') ∧
  (∀ pair_a pair_b pair_c model,
     equivalent_chrono_pairs pair_a pair_b model = true →
     equivalent_chrono_pairs pair_b pair_c model = true →
     equivalent_chrono_pairs pair_a pair_c model = true).
Proof.
  split_and!.
  - intros. by rewrite equivalent_chrono_pairs_spec, bool_decide_eq_true.
  - intros. by rewrite !equivalent_chrono_pairs_spec.
  - intros a b c model. rewrite !equivalent_chrono_pairs_spec, !bool_decide_eq_true. congruence.
Qed.

(** X2: [equivalent_extra_metadata] is transitive. *)
Theorem equivalent_extra_metadata_transitive `{XmlEt} (a b c : resqpy_object) :
  equivalent_extra_metadata a b = true →
  equivalent_extra_metadata b c = true →
  equivalent_extra_metadata a c = true.
Proof.
  rewrite !equivalent_extra_metadata_unfold.
  destruct (has_metadata a), (has_metadata b), (has_metadata c); simpl; try done.
  rewrite !bool_decide_eq_true. congruence.
Qed.

Lemma equivalent_extra_metadata_transitive_witness :
  equivalent_extra_metadata
    (Build_resqpy_object (Some {[ "source" := "survey" ]}) None)
    (Build_resqpy_object None
       (Some (Element "" "GeologicUnitFeature" ∅ None
                [new_element "" "Citation";
                 Element "" "ExtraMetadata" ∅ None
                   [Element "" "Name" ∅ (Some "source") [];
                    Element "" "Value" ∅ (Some "survey") []]]))) = true.
Proof.
  apply (equivalent_extra_metadata_transitive
           (Build_resqpy_object (Some {[ "source" := "survey" ]}) None)
           (Build_resqpy_object None
              (Some (Element "" "GeobodyFeature" ∅ None
                       [Element "" "ExtraMetadata" ∅ None
                          [Element "" "Name" ∅ (Some "source") [];
                           Element "" "Value" ∅ (Some "survey") []]])))
           (Build_resqpy_object None
              (Some (Element "" "GeologicUnitFeature" ∅ None
                       [new_element "" "Citation";
                        Element "" "ExtraMetadata" ∅ None
                          [Element "" "Name" ∅ (Some "source") [];
                           Element "" "Value" ∅ (Some "survey") []]]))));
    vm_compute; reflexivity.
Defined.

(** X3: when an object has the [extra_metadata] attribute, its document is
    never read: the comparison is the same whatever the object's root is.  In
    particular an object whose attribute is empty is equivalent to every
    object whose metadata is absent or empty, even if its own document holds
    some. *)
Theorem extra_metadata_attribute_shadows_document `{XmlEt}
    (em : gmap string string) (r r' : option element) (b : resqpy_object) :
  equivalent_extra_metadata (Build_resqpy_object (Some em) r) b
  = equivalent_extra_metadata (Build_resqpy_object (Some em) r') b ∧
  equivalent_extra_metadata b (Build_resqpy_object (Some em) r)
  = equivalent_extra_metadata b (Build_resqpy_object (Some em) r') ∧
  (absent_or_empty b →
   equivalent_extra_metadata (Build_resqpy_object (Some ∅) r) b = true).
Proof.
  split_and!.
  - by rewrite !equivalent_extra_metadata_unfold.
  - by rewrite !equivalent_extra_metadata_unfold.
  - intros Hb. apply equivalent_extra_metadata_true. left. split; [by right|done].
Qed.

(** X4: an object that holds its metadata as an attribute and an object
    without the attribute whose document loads to the same metadata are
    equivalent, in either order. *)
Theorem extra_metadata_attribute_or_document `{XmlEt}
    (em : gmap string string) (r r' : option element) :
  load_metadata_from_xml r' = Some em →
  equivalent_extra_metadata (Build_resqpy_object (Some em) r) (Build_resqpy_object None r')
  = true ∧
  equivalent_extra_metadata (Build_resqpy_object None r') (Build_resqpy_object (Some em) r)
  = true.
Proof.
  intros Hload. rewrite !equivalent_extra_metadata_unfold.
  unfold has_metadata, metadata_of. simpl. rewrite Hload.
  case_bool_decide; simpl; by rewrite ?bool_decide_eq_true_2.
Qed.

Lemma extra_metadata_attribute_or_document_witness :
  equivalent_extra_metadata
    (Build_resqpy_object (Some {[ "source" := "survey" ]}) None)
    (Build_resqpy_object None
       (Some (Element "" "GeobodyFeature" ∅ None
                [Element "" "ExtraMetadata" ∅ None
                   [Element "" "Name" ∅ (Some "source") [];
                    Element "" "Value" ∅ (Some "survey") []]])))
  = true ∧
  equivalent_extra_metadata
    (Build_resqpy_object None
       (Some (Element "" "GeobodyFeature" ∅ None
                [Element "" "ExtraMetadata" ∅ None
                   [Element "" "Name" ∅ (Some "source") [];
                    Element "" "Value" ∅ (Some "survey") []]])))
    (Build_resqpy_object (Some {[ "source" := "survey" ]}) None)
  = true.
Proof.
  apply (extra_metadata_attribute_or_document {[ "source" := "survey" ]} None).
  vm_compute. reflexivity.
Defined.

(** ** Writing and reading the time interval *)

Section occurred_during_more.
Context `{XmlEt}.

Lemma create_incomplete model parent_node base top tag :
  base = None ∨ top = None →
  create_xml_has_occurred_during model parent_node (Some (base, top)) tag = parent_node.
Proof. intros [-> | ->]; [done|by destruct base]. Qed.

Lemma find_tag_append_ne parent child tag_name :
  tag child ≠ tag_name →
  find_tag (append child parent) tag_name = find_tag parent tag_name.
Proof.
  unfold find_tag, append. simpl. intros Hne.
  induction (children parent) as [|c cs IH]; simpl.
  - by rewrite bool_decide_eq_false_2.
  - by destruct (bool_decide (tag c = tag_name)).
Qed.

Lemma extract_create_fresh model parent_node tag (b t : uuid) :
  find_tag parent_node tag = None →
  extract_has_occurred_during
    (create_xml_has_occurred_during model parent_node (Some (Some b, Some t)) tag) tag
  = (Some b, Some t).
Proof.
  intros Hfresh. rewrite create_xml_has_occurred_during_some.
  unfold extract_has_occurred_during.
  by rewrite (find_tag_append_None _ (hod_node_of model tag b t)).
Qed.

Lemma extract_create_existing model parent_node hod_pair tag :
  is_Some (find_tag parent_node tag) →
  extract_has_occurred_during (create_xml_has_occurred_during model parent_node hod_pair tag) tag
  = extract_has_occurred_during parent_node tag.
Proof.
  intros [node Hnode].
  destruct hod_pair as [[[b|] [t|]]|]; try done.
  rewrite create_xml_has_occurred_during_some. unfold extract_has_occurred_during.
  by rewrite (find_tag_append_Some _ _ _ node), Hnode.
Qed.

Lemma extract_create_other_tag model parent_node hod_pair tag tag' :
  tag ≠ tag' →
  extract_has_occurred_during (create_xml_has_occurred_during model parent_node hod_pair tag') tag
  = extract_has_occurred_during parent_node tag.
Proof.
  intros Hne.
  destruct hod_pair as [[[b|] [t|]]|]; try done.
  rewrite create_xml_has_occurred_during_some. unfold extract_has_occurred_during.
  by rewrite find_tag_append_ne.
Qed.

Lemma extract_fresh parent_node tag :
  find_tag parent_node tag = None →
  extract_has_occurred_during parent_node tag = (None, None).
Proof. unfold extract_has_occurred_during. by intros ->. Qed.

End occurred_during_more.

(** X5: once a parent holds a node with the tag, a further
    [create_xml_has_occurred_during] does not change what
    [extract_has_occurred_during] reads from it, whatever pair is written. *)
Theorem extract_unchanged_by_later_create `{XmlEt} model parent_node hod_pair tag :
  is_Some (find_tag parent_node tag) →
  extract_has_occurred_during (create_xml_has_occurred_during model parent_node hod_pair tag) tag
  = extract_has_occurred_during parent_node tag.
Proof. apply extract_create_existing. Qed.

Lemma extract_unchanged_by_later_create_witness :
  extract_has_occurred_during
    (create_xml_has_occurred_during (Build_t ∅)
       (Element "" "GeobodyFeature" ∅ None [new_element "" default_tag])
       (Some (Some "b2", Some "t2")) default_tag) default_tag
  = extract_has_occurred_during
      (Element "" "GeobodyFeature" ∅ None [new_element "" default_tag]) default_tag.
Proof.
  apply (extract_unchanged_by_later_create (Build_t ∅)
           (Element "" "GeobodyFeature" ∅ None [new_element "" default_tag])).
  vm_compute. eexists. reflexivity.
Defined.

(** X6: for two different tags that are local names, writing a time
    interval under one does not change what is read under the other. *)
Theorem extract_unchanged_by_other_tag `{XmlEt} model parent_node hod_pair tag tag' :
  plain_tag tag = true → plain_tag tag' = true → tag ≠ tag' →
  extract_has_occurred_during (create_xml_has_occurred_during model parent_node hod_pair tag') tag
  = extract_has_occurred_during parent_node tag.
Proof. intros _ _. apply extract_create_other_tag. Qed.

Lemma extract_unchanged_by_other_tag_witness :
  extract_has_occurred_during
    (create_xml_has_occurred_during (Build_t ∅) (new_element "" "GeobodyFeature")
       (Some (Some "b1", Some "t1")) "HasOccuredBefore") default_tag
  = extract_has_occurred_during (new_element "" "GeobodyFeature") default_tag.
Proof.
  apply (extract_unchanged_by_other_tag (Build_t ∅) (new_element "" "GeobodyFeature")).
  - vm_compute. reflexivity.
  - vm_compute. reflexivity.
  - vm_compute. discriminate.
Defined.

(** X7: copying a time interval from one node to another by extracting and
    creating keeps a complete pair and drops a partial one: on a parent without
    a node for the tag, extraction after the copy gives the pair read from the
    source when both its identifiers are there, and [(None, None)] otherwise. *)
Theorem extract_create_extract `{XmlEt} model source_node source_tag parent_node tag :
  find_tag parent_node tag = None →
  extract_has_occurred_during
    (create_xml_has_occurred_during model parent_node
       (Some (extract_has_occurred_during source_node source_tag)) tag) tag
  = match extract_has_occurred_during source_node source_tag with
    | (Some b, Some t) => (Some b, Some t)
    | _ => (None, None)
    end.
Proof.
  intros Hfresh.
  destruct (extract_has_occurred_during source_node source_tag) as [[b|] [t|]].
  - by apply extract_create_fresh.
  - rewrite create_incomplete by auto. by apply extract_fresh.
  - rewrite create_incomplete by auto. by apply extract_fresh.
  - rewrite create_incomplete by auto. by apply extract_fresh.
Qed.

Lemma extract_create_extract_witness :
  extract_has_occurred_during
    (create_xml_has_occurred_during (Build_t ∅) (new_element "" "GeobodyFeature")
       (Some (extract_has_occurred_during
                (Element "" "GeologicUnitFeature" ∅ None
                   [Element "" default_tag ∅ None
                      [Element "" "ChronoBottom" ∅ None [Element "" "UUID" ∅ (Some "b1") []]]])
                default_tag)) default_tag) default_tag
  = (None, None).
Proof.
  apply (extract_create_extract (Build_t ∅)
           (Element "" "GeologicUnitFeature" ∅ None
              [Element "" default_tag ∅ None
                 [Element "" "ChronoBottom" ∅ None [Element "" "UUID" ∅ (Some "b1") []]]])
           default_tag (new_element "" "GeobodyFeature") default_tag).
  reflexivity.
Defined.

(** X8: calling [create_xml_has_occurred_during] twice with complete pairs on
    a parent without a node for the tag leaves two nodes, and extraction
    reads the pair written first: a node is never replaced. *)
Theorem create_twice `{XmlEt} model parent_node tag (b t b' t' : uuid) :
  find_tag parent_node tag = None →
  extract_has_occurred_during
    (create_xml_has_occurred_during model
       (create_xml_has_occurred_during model parent_node (Some (Some b, Some t)) tag)
       (Some (Some b', Some t')) tag) tag
  = (Some b, Some t) ∧
  length (children
    (create_xml_has_occurred_during model
       (create_xml_has_occurred_during model parent_node (Some (Some b, Some t)) tag)
       (Some (Some b', Some t')) tag))
  = length (children parent_node) + 2.
Proof.
  intros Hfresh. split.
  - rewrite extract_create_existing; [by apply extract_create_fresh|].
    rewrite create_xml_has_occurred_during_some.
    by rewrite (find_tag_append_None _ (hod_node_of model tag b t)).
  - rewrite !create_xml_has_occurred_during_some. unfold append. simpl.
    rewrite !length_app. simpl. lia.
Qed.

Lemma create_twice_witness :
  extract_has_occurred_during
    (create_xml_has_occurred_during (Build_t ∅)
       (create_xml_has_occurred_during (Build_t ∅) (new_element "" "GeobodyFeature")
          (Some (Some "b1", Some "t1")) default_tag)
       (Some (Some "b2", Some "t2")) default_tag) default_tag
  = (Some "b1", Some "t1") ∧
  length (children
    (create_xml_has_occurred_during (Build_t ∅)
       (create_xml_has_occurred_during (Build_t ∅) (new_element "" "GeobodyFeature")
          (Some (Some "b1", Some "t1")) default_tag)
       (Some (Some "b2", Some "t2")) default_tag))
  = length (children (new_element "" "GeobodyFeature")) + 2.
Proof.
  apply (create_twice (Build_t ∅) (new_element "" "GeobodyFeature") default_tag).
  reflexivity.
Defined.

(** X12: with a complete pair, the node [create_xml_has_occurred_during]
    appends carries the given tag, the type attribute of a time interval and
    the placeholder text, and holds two reference nodes, [ChronoBottom] first
    and [ChronoTop] second, whose [UUID] texts are the two identifiers; the
    children the parent had before stay in front of it, in their order. *)
Theorem created_node_shape `{XmlEt} model parent_node tag (b t : uuid) :
  ∃ bottom top,
    children (create_xml_has_occurred_during model parent_node (Some (Some b, Some t)) tag)
    = children parent_node
      ++ [Element "" tag {[ ns "xsi" +:+ "type" := ns "resqml2" +:+ "TimeInterval" ]}
            (Some null_xml_text) [bottom; top]] ∧
    Xml.tag bottom = "ChronoBottom" ∧ Xml.tag top = "ChronoTop" ∧
    find_nested_tags_text bottom ["UUID"] = Some b ∧
    find_nested_tags_text top ["UUID"] = Some t.
Proof.
  rewrite create_xml_has_occurred_during_some.
  exists (ref_node "ChronoBottom" (title_for_root model (root_for_uuid model b)) b),
         (ref_node "ChronoTop" (title_for_root model (root_for_uuid model t)) t).
  by split_and!.
Qed.

(** X9: what is read back after [create_xml_has_occurred_during] does not
    depend on the model: the model only supplies the titles of the reference
    nodes, and identifiers it does not know are written all the same. *)
Theorem extract_after_create_any_model `{XmlEt} model model' parent_node hod_pair tag :
  extract_has_occurred_during (create_xml_has_occurred_during model parent_node hod_pair tag) tag
  = extract_has_occurred_during
      (create_xml_has_occurred_during model' parent_node hod_pair tag) tag.
Proof.
  destruct (find_tag parent_node tag) as [node|] eqn:Hfind.
  - by rewrite !extract_create_existing by eauto.
  - destruct hod_pair as [[[b|] [t|]]|]; try done.
    by rewrite !extract_create_fresh.
Qed.

(** X10: two parents without a node for their tags, written with the same
    pair, read back pairs that [equivalent_chrono_pairs] accepts - also when
    the pair is missing or partial and nothing is written; written with two
    different complete pairs, they read back pairs it rejects. *)
Theorem written_pairs_equivalent `{XmlEt} model model' parent_node parent_node' tag tag' :
  find_tag parent_node tag = None →
  find_tag parent_node' tag' = None →
  (∀ hod_pair compare_model,
     equivalent_chrono_pairs
       (Some (extract_has_occurred_during
                (create_xml_has_occurred_during model parent_node hod_pair tag) tag))
       (Some (extract_has_occurred_during
                (create_xml_has_occurred_during model' parent_node' hod_pair tag') tag'))
       compare_model = true) ∧
  (∀ (b t b' t' : uuid) compare_model,
     (b, t) ≠ (b', t') →
     equivalent_chrono_pairs
       (Some (extract_has_occurred_during
                (create_xml_has_occurred_during model parent_node (Some (Some b, Some t)) tag)
                tag))
       (Some (extract_has_occurred_during
                (create_xml_has_occurred_during model' parent_node' (Some (Some b', Some t')) tag')
                tag'))
       compare_model = false).
Proof.
  intros Hfresh Hfresh'. split.
  - intros hod_pair compare_model.
    rewrite equivalent_chrono_pairs_spec, bool_decide_eq_true. f_equal.
    destruct hod_pair as [[[b|] [t|]]|];
      rewrite ?extract_create_fresh, ?create_incomplete by auto;
      try done; by rewrite !extract_fresh.
  - intros b t b' t' compare_model Hne.
    rewrite equivalent_chrono_pairs_spec, !extract_create_fresh by done.
    apply bool_decide_eq_false. congruence.
Qed.

Lemma written_pairs_equivalent_witness :
  (∀ hod_pair compare_model,
     equivalent_chrono_pairs
       (Some (extract_has_occurred_during
                (create_xml_has_occurred_during (Build_t ∅)
                   (new_element "" "GeobodyFeature") hod_pair default_tag) default_tag))
       (Some (extract_has_occurred_during
                (create_xml_has_occurred_during (Build_t ∅)
                   (new_element "" "GeologicUnitFeature") hod_pair default_tag) default_tag))
       compare_model = true) ∧
  (∀ (b t b' t' : uuid) compare_model,
     (b, t) ≠ (b', t') →
     equivalent_chrono_pairs
       (Some (extract_has_occurred_during
                (create_xml_has_occurred_during (Build_t ∅)
                   (new_element "" "GeobodyFeature") (Some (Some b, Some t)) default_tag)
                default_tag))
       (Some (extract_has_occurred_during
                (create_xml_has_occurred_during (Build_t ∅)
                   (new_element "" "GeologicUnitFeature") (Some (Some b', Some t')) default_tag)
                default_tag))
       compare_model = false).
Proof.
  apply (written_pairs_equivalent (Build_t ∅) (Build_t ∅)
           (new_element "" "GeobodyFeature") (new_element "" "GeologicUnitFeature")
           default_tag default_tag); reflexivity.
Defined.

(** ** Attribute aliases *)

Section alias.
Context {V : Type}.
Implicit Types self : Alias.object V.

Lemma resolve_alias (class : gmap string string) alias_name attribute_name :
  class !! alias_name = Some attribute_name →
  class !! attribute_name = None →
  Alias.resolve (size class) class alias_name = Some attribute_name ∧
  Alias.resolve (size class) class attribute_name = Some attribute_name.
Proof.
  intros Halias Hplain.
  destruct (size class) as [|n] eqn:Hsize.
  { apply map_size_empty_iff in Hsize. subst class. by rewrite lookup_empty in Halias. }
  split.
  - simpl. rewrite Halias. destruct n; simpl; by rewrite Hplain.
  - simpl. by rewrite Hplain.
Qed.

End alias.

(** X11: let the class of an object bind a name to
    [alias_for_attribute(attribute_name)], the attribute being a plain one.
    Reading through the alias is reading the attribute, and fails exactly when
    the attribute is not set.  A value written through the alias is the value
    read through the alias, under the attribute's own name and through any
    other alias of the attribute; what any other name reads stays as it was,
    and the properties of the class stay as they were. *)
Theorem alias_for_attribute_laws {V : Type} (self : Alias.object V)
    (alias_name attribute_name : string) (value : V) :
  Alias.properties self !! alias_name = Some attribute_name →
  Alias.properties self !! attribute_name = None →
  Alias.getattr self alias_name = Alias.fget (Alias.alias_for_attribute attribute_name) self ∧
  Alias.getattr self alias_name = Alias.getattr self attribute_name ∧
  (Alias.getattr self alias_name = Alias.AttributeError ↔
   Alias.dict self !! attribute_name = None) ∧
  ∃ self',
    Alias.setattr self alias_name value = Alias.Value self' ∧
    Alias.fset (Alias.alias_for_attribute attribute_name) self value = Alias.Value self' ∧
    Alias.properties self' = Alias.properties self ∧
    Alias.getattr self' alias_name = Alias.Value value ∧
    Alias.getattr self' attribute_name = Alias.Value value ∧
    (∀ other, Alias.properties self !! other = Some attribute_name →
              Alias.getattr self' other = Alias.Value value) ∧
    (∀ name,
       Alias.resolve (size (Alias.properties self)) (Alias.properties self) name
         ≠ Some attribute_name →
       Alias.getattr self' name = Alias.getattr self name).
Proof.
  intros Halias Hplain.
  destruct (resolve_alias _ _ _ Halias Hplain) as [Hres_alias Hres_attr].
  unfold Alias.alias_for_attribute, Alias.getattr, Alias.setattr. simpl.
  rewrite Hres_alias, Hres_attr. split_and!; try done.
  - destruct (Alias.dict self !! attribute_name); naive_solver.
  - eexists. split_and!; try done; simpl.
    + by rewrite Hres_alias, lookup_insert_eq.
    + by rewrite Hres_attr, lookup_insert_eq.
    + intros other Hother.
      destruct (resolve_alias _ _ _ Hother Hplain) as [-> _].
      by rewrite lookup_insert_eq.
    + intros name Hname.
      destruct (Alias.resolve _ _ name) as [attribute|]; [|done].
      rewrite lookup_insert_ne; [done|congruence].
Qed.

Lemma alias_for_attribute_laws_witness :
  let self : Alias.object nat :=
    {| Alias.properties := {[ "feature_name" := "title" ]};
       Alias.dict := {[ "title" := 1 ]} |} in
  Alias.getattr self "feature_name" = Alias.fget (Alias.alias_for_attribute "title") self ∧
  Alias.getattr self "feature_name" = Alias.getattr self "title" ∧
  (Alias.getattr self "feature_name" = Alias.AttributeError ↔
   Alias.dict self !! "title" = None) ∧
  ∃ self',
    Alias.setattr self "feature_name" 2 = Alias.Value self' ∧
    Alias.fset (Alias.alias_for_attribute "title") self 2 = Alias.Value self' ∧
    Alias.properties self' = Alias.properties self ∧
    Alias.getattr self' "feature_name" = Alias.Value 2 ∧
    Alias.getattr self' "title" = Alias.Value 2 ∧
    (∀ other, Alias.properties self !! other = Some "title" →
              Alias.getattr self' other = Alias.Value 2) ∧
    (∀ name,
       Alias.resolve (size (Alias.properties self)) (Alias.properties self) name
         ≠ Some "title" →
       Alias.getattr self' name = Alias.getattr self name).
Proof.
  apply (alias_for_attribute_laws
           {| Alias.properties := {[ "feature_name" := "title" ]};
              Alias.dict := {[ "title" := 1 ]} |} "feature_name" "title" 2);
    reflexivity.
Defined.
